(** * mysqlxx::Connection: the configuration-driven connect path

    A shallow embedding of [libs/libmysqlxx/include/mysqlxx/Connection.h].
    The header defines one function body, [Connection::connect(const
    std::string & config_name)] (lines 84-106); every other member is only
    declared there.

    The configuration store is Poco's [LayeredConfiguration], seen through the
    three accessors the header calls.  A store is a finite map from keys to
    property texts, as the layers resolve them: Poco keeps every property as
    text and converts on access.  The application whose configuration is read
    (line 86) is taken to exist. *)

From Stdlib Require Import ZArith String Ascii List Lia.
From stdpp Require Import base option strings gmap infinite.

Import ListNotations.
Local Open Scope Z_scope.
Local Open Scope string_scope.

(** ** Constants of the header (lines 13 and 14) *)

Definition MYSQLXX_DEFAULT_TIMEOUT : Z := 60.

Definition MYSQLXX_DEFAULT_RW_TIMEOUT : Z := 1800.

(** ** Exceptions

    [NotFoundException] and [SyntaxException] are Poco's: [getString(key)]
    throws the first for a missing property, [getInt] throws the second for a
    property whose text cannot be converted to an [int].  [MysqlxxException]
    stands for what the driver layer throws (mysqlxx/Exception.h, line 11). *)

Inductive Exception : Type :=
  | NotFoundException (key : string)
  | SyntaxException (text : string)
  | MysqlxxException (what : string).

Definition is_configuration_error (e : Exception) : bool :=
  match e with
  | NotFoundException _ | SyntaxException _ => true
  | MysqlxxException _ => false
  end.

(** ** Integers

    [getInt] returns a C++ [int]; the header stores it in an [unsigned]
    (lines 92, 95 and 100), which converts modulo 2^32. *)

Definition to_unsigned (n : Z) : Z := n mod 2 ^ 32.

(** The conversion of a property text to an [int] belongs to Poco
    ([NumberParser]); the development is generic in it.  [None] is the case
    where Poco throws [SyntaxException]; a result is a C++ [int]. *)

Class NumberParser := {
  parseInt : string -> option Z;
  parseInt_int : forall text n, parseInt text = Some n -> - 2 ^ 31 <= n < 2 ^ 31
}.

(** ** The configuration accessors *)

Abbreviation Configuration := (gmap string string).

Section Accessors.
Context `{NumberParser}.

(** [std::string getString(const std::string & key) const] *)
Definition getString (cfg : Configuration) (key : string) : Exception + string :=
  match cfg !! key with
  | Some value => inr value
  | None => inl (NotFoundException key)
  end.

(** [std::string getString(const std::string & key, const std::string & deflt) const] *)
Definition getString_default (cfg : Configuration) (key deflt : string)
  : Exception + string :=
  match cfg !! key with
  | Some value => inr value
  | None => inr deflt
  end.

(** [int getInt(const std::string & key, int deflt) const] *)
Definition getInt_default (cfg : Configuration) (key : string) (deflt : Z)
  : Exception + Z :=
  match cfg !! key with
  | Some value =>
      match parseInt value with
      | Some n => inr n
      | None => inl (SyntaxException value)
      end
  | None => inr deflt
  end.

End Accessors.

(** ** Computations that may throw and that act on a state

    A C++ exception leaves the effects made before the throw in place, so the
    state is returned on both outcomes. *)

Definition M (W A : Type) : Type := W -> (Exception + A) * W.

Definition ret {W A} (a : A) : M W A := fun w => (inr a, w).

Definition bind {W A B} (m : M W A) (k : A -> M W B) : M W B :=
  fun w =>
    match m w with
    | (inr a, w') => k a w'
    | (inl e, w') => (inl e, w')
    end.

(** A configuration read does not touch the state. *)
Definition read {W A} (r : Exception + A) : M W A :=
  fun w => (r, w).

(** [unsigned x = <int expression>;] *)
Definition as_unsigned (r : Exception + Z) : Exception + Z :=
  match r with
  | inr n => inr (to_unsigned n)
  | inl e => inl e
  end.

(** [s.c_str()] handed to a [const char *] parameter: the callee reads a C
    string, the characters before the first NUL. *)
Fixpoint c_str (s : string) : string :=
  match s with
  | EmptyString => EmptyString
  | String c rest => if Ascii.eqb c Ascii.zero then EmptyString else String c (c_str rest)
  end.

#[global] Instance M_ret {W} : MRet (M W) := fun A => ret.

#[global] Instance M_bind {W} : MBind (M W) := fun A B k m => bind m k.

(** ** [Connection::connect(const std::string & config_name)], lines 84-106

    The eight-argument [connect] is virtual and only declared in the header
    (lines 75-82): it is a parameter here, acting on a state [W] that holds the
    connection object and whatever the driver layer keeps.  [cfg] is
    [Poco::Util::Application::instance().config()] (line 86).  The
    parameters of the eight-argument [connect] that are [const char *] get
    the C strings of the texts read (line 105). *)

Section ConnectByName.
Context `{NumberParser} {W : Type}.

Definition Connect8 : Type :=
  string -> string -> string -> string -> Z -> string -> Z -> Z -> M W unit.

Variable connect : Connect8.

Definition connect_config (cfg : Configuration) (config_name : string) : M W unit :=
  db ← read (getString_default cfg (config_name ++ ".db") "");
  server ← read (getString cfg (config_name ++ ".host"));
  user ← read (getString cfg (config_name ++ ".user"));
  password ← read (getString cfg (config_name ++ ".password"));
  port ← read (as_unsigned (getInt_default cfg (config_name ++ ".port") 0));
  socket ← read (getString_default cfg (config_name ++ ".socket") "");
  (* lines 95-98: an argument is evaluated before the call it is passed to, so
     the global key is read first, whether or not the section has its own *)
  global_timeout ← read (getInt_default cfg "mysql_connect_timeout" MYSQLXX_DEFAULT_TIMEOUT);
  timeout ← read (as_unsigned (getInt_default cfg (config_name ++ ".connect_timeout") global_timeout));
  (* lines 100-103 *)
  global_rw_timeout ← read (getInt_default cfg "mysql_rw_timeout" MYSQLXX_DEFAULT_RW_TIMEOUT);
  rw_timeout ← read (as_unsigned (getInt_default cfg (config_name ++ ".rw_timeout") global_rw_timeout));
  connect (c_str db) (c_str server) (c_str user) (c_str password) port
    (c_str socket) timeout rw_timeout.

End ConnectByName.

(** ** Observing the call

    The arguments of one call of the eight-argument [connect], named as its
    parameters are (lines 75-82). *)

Record ConnectArgs : Type := ConnectCall {
  arg_db : string;
  arg_server : string;
  arg_user : string;
  arg_password : string;
  arg_port : Z;
  arg_socket : string;
  arg_timeout : Z;
  arg_rw_timeout : Z
}.

(** An eight-argument [connect] that only logs the call it receives. *)
Definition recording_connect : @Connect8 (list ConnectArgs) :=
  fun db server user password port socket timeout rw_timeout calls =>
    (inr tt, (calls ++ [ConnectCall db server user password port socket timeout rw_timeout])%list).

(** The outcome of [connect(config_name)] and the calls it made. *)
Definition connect_config_calls `{NumberParser} (cfg : Configuration) (config_name : string)
  : (Exception + unit) * list ConnectArgs :=
  connect_config recording_connect cfg config_name [].

(** ** Vocabulary for stores *)

Section Stores.
Context `{NumberParser}.

Definition absent (cfg : Configuration) (key : string) : Prop := cfg !! key = None.

(** The property [key] is there and its text is no integer. *)
Definition bad_int (cfg : Configuration) (key : string) : Prop :=
  exists text, cfg !! key = Some text /\ parseInt text = None.

Definition has_key (cfg : Configuration) (key : string) : bool :=
  match cfg !! key with Some _ => true | None => false end.

(** The property [key] is missing, or its text is an integer. *)
Definition int_ok (cfg : Configuration) (key : string) : bool :=
  match cfg !! key with
  | Some text => match parseInt text with Some _ => true | None => false end
  | None => true
  end.

(** What [getInt(key, deflt)] returns, [None] where it throws. *)
Definition int_setting (cfg : Configuration) (key : string) (deflt : Z) : option Z :=
  match cfg !! key with
  | Some text => parseInt text
  | None => Some deflt
  end.

(** What [getInt(own_key, getInt(global_key, deflt))] returns. *)
Definition timeout_setting (cfg : Configuration) (own_key global_key : string) (deflt : Z)
  : option Z :=
  global ← int_setting cfg global_key deflt;
  int_setting cfg own_key global.

(** The store gives [connect(config_name)] the three settings that have no
    default, and no setting it reads as an integer has a text that is not one. *)
Definition well_configured (cfg : Configuration) (config_name : string) : bool :=
  has_key cfg (config_name ++ ".host")
  && has_key cfg (config_name ++ ".user")
  && has_key cfg (config_name ++ ".password")
  && int_ok cfg (config_name ++ ".port")
  && int_ok cfg "mysql_connect_timeout"
  && int_ok cfg (config_name ++ ".connect_timeout")
  && int_ok cfg "mysql_rw_timeout"
  && int_ok cfg (config_name ++ ".rw_timeout").

(** [connect(config_name)] throws [e] before it calls [connect]: whatever the
    eight-argument [connect] is, it ends in the state it started in. *)
Definition config_raises (cfg : Configuration) (config_name : string) (e : Exception) : Prop :=
  forall (W : Type) (connect : @Connect8 W) (w : W),
    connect_config connect cfg config_name w = (inl e, w).

End Stores.

(** ** A concrete parser for the examples

    The decimal fragment of Poco's conversion: an optional minus sign and at
    least one digit, within the range of [int]. *)

Definition digit_value (c : ascii) : option Z :=
  let n := Z.of_N (N_of_ascii c) in
  if ((48 <=? n) && (n <=? 57))%Z then Some (n - 48) else None.

Fixpoint parse_digits (s : string) (acc : Z) : option Z :=
  match s with
  | EmptyString => Some acc
  | String c rest =>
      match digit_value c with
      | Some d => parse_digits rest (10 * acc + d)
      | None => None
      end
  end.

Definition in_int_range (n : Z) : option Z :=
  if ((- 2 ^ 31 <=? n) && (n <? 2 ^ 31))%Z then Some n else None.

Definition parse_decimal (s : string) : option Z :=
  match s with
  | EmptyString => None
  | String "-"%char EmptyString => None
  | String "-"%char rest => n ← parse_digits rest 0; in_int_range (- n)
  | _ => n ← parse_digits s 0; in_int_range n
  end.

Definition decimal_parser : NumberParser.
Proof.
  refine {| parseInt := parse_decimal |}.
  assert (Hrange : forall m n, in_int_range m = Some n -> - 2 ^ 31 <= n < 2 ^ 31).
  { intros m n. unfold in_int_range. destruct (_ && _) eqn:Hb; [|discriminate].
    intros [= <-]. apply andb_true_iff in Hb as [?%Z.leb_le ?%Z.ltb_lt]. lia. }
  intros text n Hp. unfold parse_decimal in Hp.
  repeat case_match; try discriminate;
    apply bind_Some in Hp as (m & _ & Hm); by apply Hrange in Hm.
Defined.

(** Stores for a section called "mysql_params", as in the header's usage note
    (line 41). *)

Definition minimal_store : Configuration :=
  list_to_map [
    ("mysql_params.host", "127.0.0.1");
    ("mysql_params.user", "root");
    ("mysql_params.password", "qwerty")
  ].

Definition example_store : Configuration :=
  list_to_map [
    ("mysql_params.db", "Test");
    ("mysql_params.host", "127.0.0.1");
    ("mysql_params.user", "root");
    ("mysql_params.password", "qwerty");
    ("mysql_params.port", "3306");
    ("mysql_params.connect_timeout", "5");
    ("mysql_connect_timeout", "30");
    ("mysql_rw_timeout", "600")
  ].

(** ** The members the header only declares

    The constructors, the destructor, the eight-argument [connect],
    [connected], [disconnect], [ping], [query] and [getDriver] have their
    bodies in Connection.cpp, which is not among the sources.  They are
    modelled from the header's declarations and comments and from the
    description of the class. *)

(** The private members (lines 123-125).  [driver] is the address of the
    MYSQL object that the [std::unique_ptr] owns. *)
Record Connection : Type := {
  driver : N;
  is_connected : bool
}.

(** What [query] returns (mysqlxx/Query.h, line 10): the address of the
    connection the query is bound to, and its text. *)
Record Query : Type := {
  query_connection : N;
  query_text : string
}.

(** The calls a client can make on a constructed connection (lines 75-121). *)
Inductive Call : Type :=
  | CallConnect (a : ConnectArgs)
  | CallConnectConfig (cfg : Configuration) (config_name : string)
  | CallConnected
  | CallDisconnect
  | CallPing
  | CallQuery (str : string)
  | CallGetDriver.

Inductive Value : Type :=
  | VVoid
  | VBool (b : bool)
  | VQuery (q : Query)
  | VDriver (d : N).

Section Lifecycle.
Context `{NumberParser}.

(** The answers of the native library: whether it establishes a connection
    with these arguments, and whether the server behind a driver object
    still answers. *)
Variable reachable : ConnectArgs -> bool.
Variable alive : N -> bool.

(** Modelled from the spec: the body of [Connection::Connection()], "for
    delayed initialisation" (line 53), is missing.  The object takes a driver
    object of its own and is not connected. *)
Definition Connection_new (d : N) : Connection :=
  {| driver := d; is_connected := false |}.

(** Modelled from the spec: the body of the eight-argument [connect], which
    "provides delayed initialization or reconnection with other settings"
    (line 74), is missing.  It hands its arguments to the native library; the
    connection is established, or the call throws. *)
Definition Connection_connect : @Connect8 Connection :=
  fun db server user password port socket timeout rw_timeout c =>
    if reachable (ConnectCall db server user password port socket timeout rw_timeout)
    then (inr tt, {| driver := driver c; is_connected := true |})
    else (inl (MysqlxxException "connection failed"),
          {| driver := driver c; is_connected := false |}).

(** Modelled from the spec: the body of [connected], "if MySQL connection was
    established" (line 108), is missing. *)
Definition Connection_connected : M Connection bool :=
  fun c => (inr (is_connected c), c).

(** Modelled from the spec: the body of [disconnect], "disconnect from MySQL"
    (line 111), is missing. *)
Definition Connection_disconnect : M Connection unit :=
  fun c => (inr tt, {| driver := driver c; is_connected := false |}).

(** Modelled from the spec: the body of [ping], the connectivity probe, "is
    true if connection is established after call" (line 114), is missing. *)
Definition Connection_ping : M Connection bool :=
  fun c => (inr (is_connected c && alive (driver c)), c).

(** Modelled from the spec: the body of [query], the factory of query objects
    bound to the connection (line 117), is missing. *)
Definition Connection_query (this : N) (str : string) : M Connection Query :=
  fun c => (inr {| query_connection := this; query_text := str |}, c).

(** Modelled from the spec: the body of [getDriver], "get MySQL C API MYSQL
    object" (line 120), is missing. *)
Definition Connection_getDriver : M Connection N :=
  fun c => (inr (driver c), c).

(** One call on the connection at address [this].  [connect(config_name)] is
    the function of the header, over the modelled eight-argument [connect]. *)
Definition perform (this : N) (op : Call) : M Connection Value :=
  match op with
  | CallConnect a =>
      _ ← Connection_connect (arg_db a) (arg_server a) (arg_user a) (arg_password a)
            (arg_port a) (arg_socket a) (arg_timeout a) (arg_rw_timeout a);
      mret VVoid
  | CallConnectConfig cfg config_name =>
      _ ← connect_config Connection_connect cfg config_name;
      mret VVoid
  | CallConnected => b ← Connection_connected; mret (VBool b)
  | CallDisconnect => _ ← Connection_disconnect; mret VVoid
  | CallPing => b ← Connection_ping; mret (VBool b)
  | CallQuery str => q ← Connection_query this str; mret (VQuery q)
  | CallGetDriver => d ← Connection_getDriver; mret (VDriver d)
  end.

(** A client's calls in order; the client catches what a call throws and goes
    on with the next. *)
Fixpoint run (this : N) (ops : list Call) (c : Connection)
  : list (Exception + Value) * Connection :=
  match ops with
  | [] => ([], c)
  | op :: rest =>
      let '(outcome, c') := perform this op c in
      let '(outcomes, c'') := run this rest c' in
      (outcome :: outcomes, c'')
  end.

(** The calls that establish a connection. *)
Definition connects (op : Call) : Prop :=
  match op with
  | CallConnect a => reachable a = true
  | CallConnectConfig cfg name =>
      exists a, connect_config_calls cfg name = (inr tt, [a]) /\ reachable a = true
  | _ => False
  end.

(** The calls that decide whether the connection is established: a
    [disconnect], and a [connect] that gets as far as the native library. *)
Definition settles (op : Call) : Prop :=
  match op with
  | CallConnect _ => True
  | CallConnectConfig cfg name => exists a, connect_config_calls cfg name = (inr tt, [a])
  | CallDisconnect => True
  | _ => False
  end.

(** *** Several connections

    The live [Connection] objects by address, and the driver objects that are
    allocated. *)
Record World : Type := {
  objects : gmap N Connection;
  allocated : gset N
}.

(** What a program can do with connections.  The class is
    [boost::noncopyable] (line 50): there is no copy construction and no
    assignment.  The two constructors that connect at once (lines 58-70) are a
    [Construct] followed by a [CallConnect] or a [CallConnectConfig]. *)
Inductive Action : Type :=
  | Construct (this : N)
  | Destruct (this : N)
  | Method (this : N) (op : Call).

(** Modelled from the spec: the bodies of the constructors and of the
    destructor are missing.  The class is a RAII-style wrapper: construction
    allocates the driver object that the [std::unique_ptr] member owns,
    destruction releases it. *)
Definition act (w : World) (a : Action) : World :=
  match a with
  | Construct this =>
      match objects w !! this with
      | Some _ => w
      | None =>
          let d := fresh (allocated w) in
          {| objects := <[this := Connection_new d]> (objects w);
             allocated := {[d]} ∪ allocated w |}
      end
  | Destruct this =>
      match objects w !! this with
      | Some c =>
          {| objects := delete this (objects w);
             allocated := allocated w ∖ {[driver c]} |}
      | None => w
      end
  | Method this op =>
      match objects w !! this with
      | Some c =>
          {| objects := <[this := (perform this op c).2]> (objects w);
             allocated := allocated w |}
      | None => w
      end
  end.

Definition no_connections : World := {| objects := ∅; allocated := ∅ |}.

Definition execute (actions : list Action) : World :=
  foldl act no_connections actions.

(** No two live connections hold the same driver object. *)
Definition uniquely_owned (w : World) : Prop :=
  forall this1 this2 c1 c2,
    objects w !! this1 = Some c1 ->
    objects w !! this2 = Some c2 ->
    driver c1 = driver c2 ->
    this1 = this2.

(** The driver object of every live connection is allocated. *)
Definition drivers_allocated (w : World) : Prop :=
  forall this c, objects w !! this = Some c -> driver c ∈ allocated w.

End Lifecycle.

(** ** More vocabulary for [connect(config_name)] *)

(** The keys [connect(config_name)] reads, in the order it reads them
    (lines 88-103). *)
Definition keys_read (config_name : string) : list string :=
  [ config_name ++ ".db";
    config_name ++ ".host";
    config_name ++ ".user";
    config_name ++ ".password";
    config_name ++ ".port";
    config_name ++ ".socket";
    "mysql_connect_timeout";
    config_name ++ ".connect_timeout";
    "mysql_rw_timeout";
    config_name ++ ".rw_timeout" ].

(** The keys read with a default (lines 88, 92, 93 and 95-103). *)
Definition optional_keys (config_name : string) : list string :=
  [ config_name ++ ".db";
    config_name ++ ".port";
    config_name ++ ".socket";
    "mysql_connect_timeout";
    config_name ++ ".connect_timeout";
    "mysql_rw_timeout";
    config_name ++ ".rw_timeout" ].

(** The keys read with [getInt], in the order they are read. *)
Definition int_keys (config_name : string) : list string :=
  [ config_name ++ ".port";
    "mysql_connect_timeout";
    config_name ++ ".connect_timeout";
    "mysql_rw_timeout";
    config_name ++ ".rw_timeout" ].

(** The text of the first of [keys] that is there with a text that is no
    integer. *)
Fixpoint first_bad_int `{NumberParser} (cfg : Configuration) (keys : list string)
  : option string :=
  match keys with
  | [] => None
  | key :: rest =>
      match cfg !! key with
      | Some text =>
          match parseInt text with
          | Some _ => first_bad_int cfg rest
          | None => Some text
          end
      | None => first_bad_int cfg rest
      end
  end.

Fixpoint has_dot (s : string) : bool :=
  match s with
  | EmptyString => false
  | String c rest => if Ascii.eqb c "."%char then true else has_dot rest
  end.

(** A call of the eight-argument [connect] that leaves out its last two
    arguments: the declaration gives them their defaults (lines 81 and 82). *)
Definition connect_default_timeouts {W : Type} (connect : @Connect8 W)
  (db server user password : string) (port : Z) (socket : string) : M W unit :=
  connect db server user password port socket
    MYSQLXX_DEFAULT_TIMEOUT MYSQLXX_DEFAULT_RW_TIMEOUT.

(** More stores for the examples. *)

Definition two_sections_store : Configuration :=
  list_to_map [
    ("first.host", "10.0.0.1");
    ("first.user", "reader");
    ("first.password", "one");
    ("second.host", "10.0.0.2");
    ("second.user", "writer");
    ("second.password", "two");
    ("mysql_connect_timeout", "30")
  ].

Definition missing_user_store : Configuration :=
  list_to_map [
    ("mysql_params.host", "127.0.0.1");
    ("mysql_params.port", "abc")
  ].

Definition bad_timeouts_store : Configuration :=
  list_to_map [
    ("mysql_params.host", "127.0.0.1");
    ("mysql_params.user", "root");
    ("mysql_params.password", "qwerty");
    ("mysql_connect_timeout", "later");
    ("mysql_params.connect_timeout", "soon")
  ].

(** A password of five characters, the third of them NUL. *)
Definition nul_password : string := "ab" ++ String Ascii.zero "cd".

Definition nul_password_store : Configuration :=
  list_to_map [
    ("mysql_params.host", "127.0.0.1");
    ("mysql_params.user", "root");
    ("mysql_params.password", nul_password)
  ].

(** The store of the usage note with a global connect timeout that is no
    integer. *)
Definition bad_global_store : Configuration :=
  <["mysql_connect_timeout" := "abc"]> example_store.

(** * Facts about the configuration-driven connect *)

(** ** Strings and keys *)

Lemma length_append (s1 s2 : string) :
  String.length (s1 ++ s2) = (String.length s1 + String.length s2)%nat.
Proof. induction s1 as [|c s1 IH]; simpl; [reflexivity | by rewrite IH]. Qed.

(** No section's own timeout key is the global one: the global keys have no
    dot. *)
Lemma own_connect_timeout_key (name : string) :
  name ++ ".connect_timeout" ≠ "mysql_connect_timeout".
Proof.
  destruct name as [|c1 [|c2 [|c3 [|c4 [|c5 [|c6 rest]]]]]]; simpl; try discriminate.
  intros Heq. apply (f_equal String.length) in Heq. simpl in Heq.
  rewrite length_append in Heq. simpl in Heq. lia.
Qed.

Lemma own_rw_timeout_key (name : string) :
  name ++ ".rw_timeout" ≠ "mysql_rw_timeout".
Proof.
  destruct name as [|c1 [|c2 [|c3 [|c4 [|c5 [|c6 rest]]]]]]; simpl; try discriminate.
  intros Heq. apply (f_equal String.length) in Heq. simpl in Heq.
  rewrite length_append in Heq. simpl in Heq. lia.
Qed.

Lemma has_dot_append (s1 s2 : string) :
  has_dot (s1 ++ s2) = has_dot s1 || has_dot s2.
Proof.
  induction s1 as [|c s1 IH]; simpl; [reflexivity|].
  by destruct (Ascii.eqb c "."%char).
Qed.

(** A key of a section has a dot, a global key has none. *)
Lemma section_key_not_global (name suffix key : string) :
  has_dot suffix = true -> has_dot key = false -> name ++ suffix ≠ key.
Proof.
  intros Hs Hk Heq. rewrite <- Heq, has_dot_append, Hs, orb_true_r in Hk. discriminate.
Qed.

Lemma section_keys_differ (name suffix1 suffix2 : string) :
  suffix1 ≠ suffix2 -> name ++ suffix1 ≠ name ++ suffix2.
Proof. intros Hne Heq. apply Hne. by apply (inj (String.append name)). Qed.

Ltac keys_apart :=
  first [ by apply section_keys_differ
        | by apply section_key_not_global
        | by apply not_eq_sym, section_keys_differ
        | by apply not_eq_sym, section_key_not_global
        | discriminate ].

(** A C string is the whole text, or the text up to a NUL. *)
Lemma c_str_eq (s : string) :
  c_str s = s \/ exists rest, s = c_str s ++ String Ascii.zero rest.
Proof.
  induction s as [|c s IH]; cbn [c_str]; [by left|].
  destruct (Ascii.eqb c Ascii.zero) eqn:Hc.
  - right. apply Ascii.eqb_eq in Hc as ->. by exists s.
  - destruct IH as [->|[rest Hrest]]; [by left|].
    right. exists rest. change (String c s = String c (c_str s ++ String Ascii.zero rest)).
    by rewrite <- Hrest.
Qed.

(** An [int] that is not negative converts to itself. *)
Lemma to_unsigned_nonneg `{NumberParser} (text : string) (n : Z) :
  parseInt text = Some n -> 0 <= n -> to_unsigned n = n.
Proof.
  intros Hn%parseInt_int Hpos. unfold to_unsigned. apply Z.mod_small. lia.
Qed.

Lemma to_unsigned_range (n : Z) : 0 <= to_unsigned n < 2 ^ 32.
Proof. unfold to_unsigned. apply Z.mod_pos_bound. lia. Qed.

(** ** The accessors *)

Section AccessorFacts.
Context `{NumberParser}.

Lemma read_inr {W A B} (a : A) (k : A -> M W B) (w : W) :
  (read (inr a) ≫= k) w = k a w.
Proof. reflexivity. Qed.

Lemma read_inl {W A B} (e : Exception) (k : A -> M W B) (w : W) :
  (read (inl e) ≫= k) w = (inl e, w).
Proof. reflexivity. Qed.

Lemma getString_inr cfg key value :
  getString cfg key = inr value <-> cfg !! key = Some value.
Proof. unfold getString. destruct (cfg !! key); split; congruence. Qed.

Lemma getString_inl cfg key e :
  getString cfg key = inl e <-> cfg !! key = None /\ e = NotFoundException key.
Proof.
  unfold getString. destruct (cfg !! key).
  - split; [discriminate | intros [? _]; discriminate].
  - split; [intros [= <-]; done | intros [_ ->]; done].
Qed.

Lemma getString_default_eq cfg key deflt :
  getString_default cfg key deflt = inr (default deflt (cfg !! key)).
Proof. unfold getString_default. by destruct (cfg !! key). Qed.

Lemma getInt_default_inr cfg key deflt n :
  getInt_default cfg key deflt = inr n <-> int_setting cfg key deflt = Some n.
Proof.
  unfold getInt_default, int_setting.
  destruct (cfg !! key) as [text|]; [destruct (parseInt text)|]; split; congruence.
Qed.

Lemma getInt_default_inl cfg key deflt e :
  getInt_default cfg key deflt = inl e <->
  exists text, cfg !! key = Some text /\ parseInt text = None /\ e = SyntaxException text.
Proof.
  unfold getInt_default.
  destruct (cfg !! key) as [text|]; [destruct (parseInt text) eqn:Hp|].
  - split; [discriminate | intros (t & Ht & Hn & _); congruence].
  - split; [intros [= <-]; eauto | intros (t & [= <-] & _ & ->); reflexivity].
  - split; [discriminate | intros (t & Ht & _); discriminate].
Qed.

Lemma has_key_true cfg key :
  has_key cfg key = true <-> exists value, cfg !! key = Some value.
Proof.
  unfold has_key. destruct (cfg !! key); split; eauto; [discriminate | intros [? ?]; discriminate].
Qed.

Lemma has_key_false cfg key : has_key cfg key = false <-> absent cfg key.
Proof. unfold has_key, absent. destruct (cfg !! key); split; congruence. Qed.

Lemma int_ok_true cfg key deflt :
  int_ok cfg key = true <-> exists n, int_setting cfg key deflt = Some n.
Proof.
  unfold int_ok, int_setting.
  destruct (cfg !! key) as [text|]; [destruct (parseInt text)|]; split; eauto;
    first [discriminate | intros [? ?]; discriminate].
Qed.

Lemma int_ok_false cfg key : int_ok cfg key = false <-> bad_int cfg key.
Proof.
  unfold int_ok, bad_int.
  destruct (cfg !! key) as [text|]; [destruct (parseInt text) eqn:Hp|]; split;
    try discriminate; eauto.
  - intros (t & [= <-] & Hn). congruence.
  - intros (t & Ht & _). discriminate.
Qed.

End AccessorFacts.

(** ** Running [connect(config_name)] *)

Ltac run_reads :=
  unfold connect_config; rewrite !getString_default_eq;
  repeat first
    [ rewrite read_inr
    | rewrite read_inl
    | progress cbn [as_unsigned]
    | match goal with
      | E : getString ?c ?k = _ |- context [getString ?c ?k] => rewrite E
      | E : getInt_default ?c ?k ?d = _ |- context [getInt_default ?c ?k ?d] => rewrite E
      end ].

Ltac raised_by e E :=
  exists e; split;
  [ first [ apply getString_inl in E as [_ ->]
          | apply getInt_default_inl in E as (? & _ & _ & ->) ]; reflexivity
  | intros ? ? ?; run_reads; reflexivity ].

Section ConnectFacts.
Context `{NumberParser}.

(** When every read succeeds, the call is the eight-argument [connect] on
    what was read, in the order of its parameters. *)
Lemma connect_config_success cfg name server user password port gt timeout grw rw_timeout :
  cfg !! (name ++ ".host") = Some server ->
  cfg !! (name ++ ".user") = Some user ->
  cfg !! (name ++ ".password") = Some password ->
  int_setting cfg (name ++ ".port") 0 = Some port ->
  int_setting cfg "mysql_connect_timeout" MYSQLXX_DEFAULT_TIMEOUT = Some gt ->
  int_setting cfg (name ++ ".connect_timeout") gt = Some timeout ->
  int_setting cfg "mysql_rw_timeout" MYSQLXX_DEFAULT_RW_TIMEOUT = Some grw ->
  int_setting cfg (name ++ ".rw_timeout") grw = Some rw_timeout ->
  forall (W : Type) (connect : @Connect8 W) (w : W),
    connect_config connect cfg name w
    = connect (c_str (default "" (cfg !! (name ++ ".db")))) (c_str server)
        (c_str user) (c_str password) (to_unsigned port)
        (c_str (default "" (cfg !! (name ++ ".socket"))))
        (to_unsigned timeout) (to_unsigned rw_timeout) w.
Proof.
  intros Hs Hu Hp Hport Hgt Ht Hgrw Hrw W connect w.
  apply getString_inr in Hs, Hu, Hp.
  apply getInt_default_inr in Hport, Hgt, Ht, Hgrw, Hrw.
  run_reads. reflexivity.
Qed.

(** A store that is not well configured stops [connect(config_name)] at the
    first read that fails. *)
Lemma ill_configured_raises cfg name :
  well_configured cfg name = false ->
  exists e, is_configuration_error e = true /\ config_raises cfg name e.
Proof.
  intros Hwc.
  destruct (getString cfg (name ++ ".host")) as [e|server] eqn:Hhost;
    [raised_by e Hhost|].
  destruct (getString cfg (name ++ ".user")) as [e|user] eqn:Huser;
    [raised_by e Huser|].
  destruct (getString cfg (name ++ ".password")) as [e|password] eqn:Hpassword;
    [raised_by e Hpassword|].
  destruct (getInt_default cfg (name ++ ".port") 0) as [e|port] eqn:Hport;
    [raised_by e Hport|].
  destruct (getInt_default cfg "mysql_connect_timeout" MYSQLXX_DEFAULT_TIMEOUT)
    as [e|gt] eqn:Hgt; [raised_by e Hgt|].
  destruct (getInt_default cfg (name ++ ".connect_timeout") gt) as [e|timeout] eqn:Ht;
    [raised_by e Ht|].
  destruct (getInt_default cfg "mysql_rw_timeout" MYSQLXX_DEFAULT_RW_TIMEOUT)
    as [e|grw] eqn:Hgrw; [raised_by e Hgrw|].
  destruct (getInt_default cfg (name ++ ".rw_timeout") grw) as [e|rw] eqn:Hrw;
    [raised_by e Hrw|].
  exfalso. unfold well_configured in Hwc.
  apply getString_inr in Hhost, Huser, Hpassword.
  apply getInt_default_inr in Hport, Hgt, Ht, Hgrw, Hrw.
  rewrite (proj2 (has_key_true _ _)), (proj2 (has_key_true _ _)),
    (proj2 (has_key_true _ _)) in Hwc by eauto.
  rewrite (proj2 (int_ok_true _ (name ++ ".port") 0)) in Hwc by eauto.
  rewrite (proj2 (int_ok_true _ "mysql_connect_timeout" MYSQLXX_DEFAULT_TIMEOUT)) in Hwc by eauto.
  rewrite (proj2 (int_ok_true _ (name ++ ".connect_timeout") gt)) in Hwc by eauto.
  rewrite (proj2 (int_ok_true _ "mysql_rw_timeout" MYSQLXX_DEFAULT_RW_TIMEOUT)) in Hwc by eauto.
  rewrite (proj2 (int_ok_true _ (name ++ ".rw_timeout") grw)) in Hwc by eauto.
  discriminate.
Qed.

(** What a well-configured store holds. *)
Lemma well_configured_settings cfg name :
  well_configured cfg name = true ->
  exists server user password port gt timeout grw rw_timeout,
    cfg !! (name ++ ".host") = Some server /\
    cfg !! (name ++ ".user") = Some user /\
    cfg !! (name ++ ".password") = Some password /\
    int_setting cfg (name ++ ".port") 0 = Some port /\
    int_setting cfg "mysql_connect_timeout" MYSQLXX_DEFAULT_TIMEOUT = Some gt /\
    int_setting cfg (name ++ ".connect_timeout") gt = Some timeout /\
    int_setting cfg "mysql_rw_timeout" MYSQLXX_DEFAULT_RW_TIMEOUT = Some grw /\
    int_setting cfg (name ++ ".rw_timeout") grw = Some rw_timeout.
Proof.
  unfold well_configured. rewrite !andb_true_iff.
  intros [[[[[[[Hs Hu] Hp] Hport] Hgt] Ht] Hgrw] Hrw].
  apply has_key_true in Hs as [server Hs], Hu as [user Hu], Hp as [password Hp].
  apply (int_ok_true _ _ 0) in Hport as [port Hport].
  apply (int_ok_true _ _ MYSQLXX_DEFAULT_TIMEOUT) in Hgt as [gt Hgt].
  apply (int_ok_true _ _ gt) in Ht as [timeout Ht].
  apply (int_ok_true _ _ MYSQLXX_DEFAULT_RW_TIMEOUT) in Hgrw as [grw Hgrw].
  apply (int_ok_true _ _ grw) in Hrw as [rw_timeout Hrw].
  exists server, user, password, port, gt, timeout, grw, rw_timeout. done.
Qed.

Lemma timeout_setting_eq cfg own_key global_key deflt global :
  int_setting cfg global_key deflt = Some global ->
  timeout_setting cfg own_key global_key deflt = int_setting cfg own_key global.
Proof. intros Hg. unfold timeout_setting. by rewrite Hg. Qed.

(** On a well-configured store there is one call, with these arguments. *)
Lemma well_configured_call cfg name :
  well_configured cfg name = true ->
  exists server user password port timeout rw_timeout,
    cfg !! (name ++ ".host") = Some server /\
    cfg !! (name ++ ".user") = Some user /\
    cfg !! (name ++ ".password") = Some password /\
    int_setting cfg (name ++ ".port") 0 = Some port /\
    timeout_setting cfg (name ++ ".connect_timeout") "mysql_connect_timeout"
      MYSQLXX_DEFAULT_TIMEOUT = Some timeout /\
    timeout_setting cfg (name ++ ".rw_timeout") "mysql_rw_timeout"
      MYSQLXX_DEFAULT_RW_TIMEOUT = Some rw_timeout /\
    connect_config_calls cfg name
    = (inr tt, [ConnectCall (c_str (default "" (cfg !! (name ++ ".db")))) (c_str server)
                  (c_str user) (c_str password) (to_unsigned port)
                  (c_str (default "" (cfg !! (name ++ ".socket"))))
                  (to_unsigned timeout) (to_unsigned rw_timeout)]).
Proof.
  intros Hwc.
  destruct (well_configured_settings _ _ Hwc)
    as (server & user & password & port & gt & timeout & grw & rw_timeout
        & Hs & Hu & Hp & Hport & Hgt & Ht & Hgrw & Hrw).
  exists server, user, password, port, timeout, rw_timeout.
  rewrite (timeout_setting_eq _ _ _ _ _ Hgt), (timeout_setting_eq _ _ _ _ _ Hgrw).
  repeat (split; [assumption|]).
  unfold connect_config_calls.
  by rewrite (connect_config_success _ _ _ _ _ _ _ _ _ _ Hs Hu Hp Hport Hgt Ht Hgrw Hrw).
Qed.

(** A call was made only if the store is well configured. *)
Lemma call_well_configured cfg name args :
  connect_config_calls cfg name = (inr tt, [args]) -> well_configured cfg name = true.
Proof.
  intros Hcall. destruct (well_configured cfg name) eqn:Hwc; [reflexivity|].
  destruct (ill_configured_raises _ _ Hwc) as (e & _ & Hraise).
  unfold connect_config_calls in Hcall. rewrite Hraise in Hcall. discriminate.
Qed.

(** The timeout a store resolves to, by the three cases of the fallback. *)
Lemma timeout_setting_cases cfg own_key global_key deflt timeout :
  timeout_setting cfg own_key global_key deflt = Some timeout ->
  match cfg !! own_key with
  | Some text => parseInt text = Some timeout
  | None =>
      match cfg !! global_key with
      | Some text => parseInt text = Some timeout
      | None => timeout = deflt
      end
  end.
Proof.
  unfold timeout_setting, int_setting.
  destruct (cfg !! global_key) as [gtext|]; simpl.
  - destruct (parseInt gtext) as [g|] eqn:Hg; simpl; [|discriminate].
    destruct (cfg !! own_key); [done | congruence].
  - destruct (cfg !! own_key); [done | congruence].
Qed.

(** [connect(config_name)] either stops at a configuration error, or is one
    call of the eight-argument [connect]. *)
Lemma connect_config_dichotomy cfg name :
  (exists e, is_configuration_error e = true /\ config_raises cfg name e)
  \/ (exists a,
        connect_config_calls cfg name = (inr tt, [a]) /\
        forall (W : Type) (connect : @Connect8 W) (w : W),
          connect_config connect cfg name w
          = connect (arg_db a) (arg_server a) (arg_user a) (arg_password a)
              (arg_port a) (arg_socket a) (arg_timeout a) (arg_rw_timeout a) w).
Proof.
  destruct (well_configured cfg name) eqn:Hwc.
  - right.
    destruct (well_configured_settings _ _ Hwc)
      as (server & user & password & port & gt & timeout & grw & rw_timeout
          & Hs & Hu & Hp & Hport & Hgt & Ht & Hgrw & Hrw).
    pose proof (connect_config_success _ _ _ _ _ _ _ _ _ _ Hs Hu Hp Hport Hgt Ht Hgrw Hrw)
      as Hrun.
    eexists. split.
    + unfold connect_config_calls. rewrite Hrun. reflexivity.
    + intros W connect w. rewrite Hrun. reflexivity.
  - left. by apply ill_configured_raises.
Qed.

End ConnectFacts.

(** ** The claims about [connect(config_name)] *)

Section ConnectClaims.
Context `{NumberParser}.

(** C1, as amended.  On every store that lets [connect(config_name)] through,
    the settings are read from the keys of the section -- db (default the
    empty string), host, user, password, port (default 0), socket (default the
    empty string) -- and the eight-argument [connect] is called once with them,
    in the order db, server, user, password, port, socket, timeout,
    rw_timeout.  A string is handed over as the C string of the text read, so
    up to its first NUL; an integer is handed over as the [unsigned] it is
    stored in. *)
Theorem connect_config_maps_configuration cfg name :
  well_configured cfg name = true ->
  exists server user password port timeout rw_timeout,
    cfg !! (name ++ ".host") = Some server /\
    cfg !! (name ++ ".user") = Some user /\
    cfg !! (name ++ ".password") = Some password /\
    int_setting cfg (name ++ ".port") 0 = Some port /\
    timeout_setting cfg (name ++ ".connect_timeout") "mysql_connect_timeout"
      MYSQLXX_DEFAULT_TIMEOUT = Some timeout /\
    timeout_setting cfg (name ++ ".rw_timeout") "mysql_rw_timeout"
      MYSQLXX_DEFAULT_RW_TIMEOUT = Some rw_timeout /\
    forall (W : Type) (connect : @Connect8 W) (w : W),
      connect_config connect cfg name w
      = connect (c_str (default "" (cfg !! (name ++ ".db")))) (c_str server)
          (c_str user) (c_str password) (to_unsigned port)
          (c_str (default "" (cfg !! (name ++ ".socket"))))
          (to_unsigned timeout) (to_unsigned rw_timeout) w.
Proof.
  intros Hwc.
  destruct (well_configured_settings _ _ Hwc)
    as (server & user & password & port & gt & timeout & grw & rw_timeout
        & Hs & Hu & Hp & Hport & Hgt & Ht & Hgrw & Hrw).
  exists server, user, password, port, timeout, rw_timeout.
  rewrite (timeout_setting_eq _ _ _ _ _ Hgt), (timeout_setting_eq _ _ _ _ _ Hgrw).
  repeat (split; [assumption|]).
  by apply connect_config_success with (gt := gt) (grw := grw).
Qed.



(** C4, as amended.  [connect(config_name)] raises a configuration error if
    and only if one of the keys config_name.host, config_name.user,
    config_name.password is absent, or one of the settings it reads as an
    integer -- config_name.port, mysql_connect_timeout,
    config_name.connect_timeout, mysql_rw_timeout, config_name.rw_timeout --
    is present with a text that is not an integer.  The absence of a key that
    has a default is not among the causes.  When it raises, the error is a
    configuration error, the eight-argument [connect] is not called and the
    state is the one before the call; when it does not, [connect] is called
    once. *)
Theorem connect_config_error_cases cfg name :
  ((exists e, config_raises cfg name e) <->
     absent cfg (name ++ ".host")
     \/ absent cfg (name ++ ".user")
     \/ absent cfg (name ++ ".password")
     \/ bad_int cfg (name ++ ".port")
     \/ bad_int cfg "mysql_connect_timeout"
     \/ bad_int cfg (name ++ ".connect_timeout")
     \/ bad_int cfg "mysql_rw_timeout"
     \/ bad_int cfg (name ++ ".rw_timeout"))
  /\ (forall e, config_raises cfg name e ->
        is_configuration_error e = true
        /\ connect_config_calls cfg name = (inl e, []))
  /\ ((forall e, ~ config_raises cfg name e) ->
        exists args, connect_config_calls cfg name = (inr tt, [args])).
Proof.
  assert (Hraise : forall e, config_raises cfg name e -> well_configured cfg name = false).
  { intros e He. destruct (well_configured cfg name) eqn:Hwc; [|reflexivity].
    destruct (well_configured_call _ _ Hwc) as (? & ? & ? & ? & ? & ? & _ & _ & _ & _ & _ & _ & Hcall).
    unfold connect_config_calls in Hcall. rewrite He in Hcall. discriminate. }
  assert (Hcases : well_configured cfg name = false <->
     absent cfg (name ++ ".host") \/ absent cfg (name ++ ".user")
     \/ absent cfg (name ++ ".password") \/ bad_int cfg (name ++ ".port")
     \/ bad_int cfg "mysql_connect_timeout" \/ bad_int cfg (name ++ ".connect_timeout")
     \/ bad_int cfg "mysql_rw_timeout" \/ bad_int cfg (name ++ ".rw_timeout")).
  { unfold well_configured. rewrite !andb_false_iff, !has_key_false, !int_ok_false. tauto. }
  split; [|split].
  - rewrite <- Hcases. split.
    + intros [e He]. eauto.
    + intros Hwc. destruct (ill_configured_raises _ _ Hwc) as (e & _ & He). eauto.
  - intros e He. pose proof (Hraise _ He) as Hwc.
    destruct (ill_configured_raises _ _ Hwc) as (e' & Hconf & He').
    assert (e' = e) as ->.
    { pose proof (He unit (fun _ _ _ _ _ _ _ _ => ret tt) tt) as H1.
      pose proof (He' unit (fun _ _ _ _ _ _ _ _ => ret tt) tt) as H2.
      congruence. }
    split; [assumption|]. apply He.
  - intros Hnone. destruct (well_configured cfg name) eqn:Hwc.
    + destruct (well_configured_call _ _ Hwc) as (? & ? & ? & ? & ? & ? & _ & _ & _ & _ & _ & _ & Hcall).
      eauto.
    + destruct (ill_configured_raises _ _ Hwc) as (e & _ & He). by destruct (Hnone e).
Qed.


(** C9, as amended.  Take two stores that differ at most in the global key
    mysql_connect_timeout, the section's own key config_name.connect_timeout
    being present, and the global key being absent or an integer in each of
    them: the two runs of [connect(config_name)] are the same, whatever the
    eight-argument [connect] is, so the same timeout is handed over, or the
    same error raised.  Likewise for config_name.rw_timeout and
    mysql_rw_timeout.  The condition on the global key is needed: it is read
    and parsed before the section's own key is looked at (lines 95-98,
    100-103). *)
Theorem own_timeout_shields_global :
  (forall cfg1 cfg2 name,
     (forall key, key ≠ "mysql_connect_timeout" -> cfg1 !! key = cfg2 !! key) ->
     is_Some (cfg1 !! (name ++ ".connect_timeout")) ->
     int_ok cfg1 "mysql_connect_timeout" = true ->
     int_ok cfg2 "mysql_connect_timeout" = true ->
     forall (W : Type) (connect : @Connect8 W) (w : W),
       connect_config connect cfg1 name w = connect_config connect cfg2 name w)
  /\
  (forall cfg1 cfg2 name,
     (forall key, key ≠ "mysql_rw_timeout" -> cfg1 !! key = cfg2 !! key) ->
     is_Some (cfg1 !! (name ++ ".rw_timeout")) ->
     int_ok cfg1 "mysql_rw_timeout" = true ->
     int_ok cfg2 "mysql_rw_timeout" = true ->
     forall (W : Type) (connect : @Connect8 W) (w : W),
       connect_config connect cfg1 name w = connect_config connect cfg2 name w).
Proof.
  split.
  - intros cfg1 cfg2 name Hsame [own Hown] Hg1 Hg2 W connect w.
    assert (Hsection : forall suffix,
              (exists c rest, suffix = String "." (String c rest)) ->
              cfg1 !! (name ++ suffix) = cfg2 !! (name ++ suffix)).
    { intros suffix (c & rest & ->). apply Hsame. intros Heq.
      apply (f_equal has_dot) in Heq. rewrite has_dot_append in Heq.
      cbn in Heq. by rewrite orb_true_r in Heq. }
    assert (Hrw : cfg1 !! "mysql_rw_timeout" = cfg2 !! "mysql_rw_timeout")
      by (by apply Hsame).
    unfold connect_config, getString, getString_default, getInt_default.
    rewrite !Hsection by (by do 2 eexists). rewrite Hrw.
    rewrite Hsection in Hown by (by do 2 eexists). rewrite Hown.
    unfold int_ok in Hg1, Hg2.
    destruct (cfg1 !! "mysql_connect_timeout") as [text1|];
      [destruct (parseInt text1) as [g1|]; [|discriminate]|];
      (destruct (cfg2 !! "mysql_connect_timeout") as [text2|];
       [destruct (parseInt text2) as [g2|]; [|discriminate]|]); reflexivity.
  - intros cfg1 cfg2 name Hsame [own Hown] Hg1 Hg2 W connect w.
    assert (Hsection : forall suffix,
              (exists c rest, suffix = String "." (String c rest)) ->
              cfg1 !! (name ++ suffix) = cfg2 !! (name ++ suffix)).
    { intros suffix (c & rest & ->). apply Hsame. intros Heq.
      apply (f_equal has_dot) in Heq. rewrite has_dot_append in Heq.
      cbn in Heq. by rewrite orb_true_r in Heq. }
    assert (Hct : cfg1 !! "mysql_connect_timeout" = cfg2 !! "mysql_connect_timeout")
      by (by apply Hsame).
    unfold connect_config, getString, getString_default, getInt_default.
    rewrite !Hsection by (by do 2 eexists). rewrite Hct.
    rewrite Hsection in Hown by (by do 2 eexists). rewrite Hown.
    unfold int_ok in Hg1, Hg2.
    destruct (cfg1 !! "mysql_rw_timeout") as [text1|];
      [destruct (parseInt text1) as [g1|]; [|discriminate]|];
      (destruct (cfg2 !! "mysql_rw_timeout") as [text2|];
       [destruct (parseInt text2) as [g2|]; [|discriminate]|]); reflexivity.
Qed.

End ConnectClaims.

(** * Concrete stores *)

(** The store of the usage note gets through, with the section's own connect
    timeout and the global read/write timeout. *)
Example example_store_run :
  @connect_config_calls decimal_parser example_store "mysql_params"
  = (inr tt, [ConnectCall "Test" "127.0.0.1" "root" "qwerty" 3306 "" 5 600]).
Proof. vm_compute. reflexivity. Qed.

(** With the three settings that have no default and nothing else, every
    default applies. *)
Example minimal_store_run :
  @connect_config_calls decimal_parser minimal_store "mysql_params"
  = (inr tt, [ConnectCall "" "127.0.0.1" "root" "qwerty" 0 "" 60 1800]).
Proof. vm_compute. reflexivity. Qed.

(** The first missing setting is the one reported. *)
Example empty_store_run :
  @connect_config_calls decimal_parser ∅ "mysql_params"
  = (inl (NotFoundException "mysql_params.host"), []).
Proof. vm_compute. reflexivity. Qed.

(** A negative integer is handed over as the [unsigned] it converts to. *)
Example negative_timeout_run :
  @connect_config_calls decimal_parser
    (<["mysql_params.connect_timeout" := "-1"]> minimal_store) "mysql_params"
  = (inr tt, [ConnectCall "" "127.0.0.1" "root" "qwerty" 0 "" 4294967295 1800]).
Proof. vm_compute. reflexivity. Qed.

(** C1, witness: the store of the usage note. *)
Lemma connect_config_maps_configuration_witness :
  @well_configured decimal_parser example_store "mysql_params" = true
  /\ (forall (W : Type) (connect : @Connect8 W) (w : W),
        @connect_config decimal_parser W connect example_store "mysql_params" w
        = connect "Test" "127.0.0.1" "root" "qwerty" 3306 "" 5 600 w).
Proof.
  split; [vm_compute; reflexivity|].
  destruct (@connect_config_maps_configuration decimal_parser example_store "mysql_params")
    as (server & user & password & port & timeout & rw_timeout
        & Hs & Hu & Hp & Hport & Ht & Hrw & Hrun); [vm_compute; reflexivity|].
  vm_compute in Hs, Hu, Hp, Hport, Ht, Hrw.
  injection Hs as <-. injection Hu as <-. injection Hp as <-.
  injection Hport as <-. injection Ht as <-. injection Hrw as <-.
  exact Hrun.
Defined.

(** C1, as first stated, fails: a password with a NUL in it is read whole from
    the store and reaches the eight-argument [connect] cut at the NUL, the
    parameter being a [const char *] (lines 75-80) fed with
    [password.c_str()] (line 105). *)
Lemma password_cut_at_nul :
  nul_password_store !! "mysql_params.password" = Some nul_password
  /\ String.length nul_password = 5%nat
  /\ @connect_config_calls decimal_parser nul_password_store "mysql_params"
     = (inr tt, [ConnectCall "" "127.0.0.1" "root" "ab" 0 "" 60 1800])
  /\ ~ (forall (W : Type) (connect : @Connect8 W) (w : W),
          @connect_config decimal_parser W connect nul_password_store "mysql_params" w
          = connect "" "127.0.0.1" "root" nul_password 0 "" 60 1800 w).
Proof.
  do 3 (split; [vm_compute; reflexivity|]).
  intros Hwhole.
  specialize (Hwhole (list ConnectArgs) recording_connect []).
  vm_compute in Hwhole. discriminate.
Qed.



(** The third case of the fallback, by evaluation: no timeout key at all. *)
Example default_timeouts_run :
  minimal_store !! "mysql_params.connect_timeout" = None
  /\ minimal_store !! "mysql_connect_timeout" = None
  /\ minimal_store !! "mysql_params.rw_timeout" = None
  /\ minimal_store !! "mysql_rw_timeout" = None
  /\ @connect_config_calls decimal_parser minimal_store "mysql_params"
     = (inr tt, [ConnectCall "" "127.0.0.1" "root" "qwerty" 0 "" 60 1800]).
Proof. vm_compute. repeat split. Qed.

(** C4, counterexample to the claim as stated: none of the keys host, user
    and password is absent, and [connect(config_name)] raises a configuration
    error all the same, the text of the port being no integer.  So "raises if
    and only if one of the three keys is absent" fails at this store. *)
Lemma port_text_not_integer_raises :
  let cfg : Configuration := <["mysql_params.port" := "abc"]> minimal_store in
  (cfg !! "mysql_params.host" = Some "127.0.0.1"
   /\ cfg !! "mysql_params.user" = Some "root"
   /\ cfg !! "mysql_params.password" = Some "qwerty"
   /\ @connect_config_calls decimal_parser cfg "mysql_params"
      = (inl (SyntaxException "abc"), []))
  /\ ~ ((exists e, @config_raises decimal_parser cfg "mysql_params" e) <->
          absent cfg "mysql_params.host"
          \/ absent cfg "mysql_params.user"
          \/ absent cfg "mysql_params.password").
Proof.
  cbv zeta. split; [vm_compute; repeat split|].
  intros [Honly_if _].
  destruct Honly_if as [Hh|[Hu|Hp]]; [|discriminate Hh|discriminate Hu|discriminate Hp].
  destruct (@ill_configured_raises decimal_parser
              (<["mysql_params.port" := "abc"]> minimal_store) "mysql_params")
    as (e & _ & He); [vm_compute; reflexivity | eauto].
Qed.

(** C4, witness of the amended statement, at the same store: the port is
    present with a text that is no integer, which is one of the causes, so
    the call raises. *)
Lemma connect_config_error_cases_witness :
  let cfg : Configuration := <["mysql_params.port" := "abc"]> minimal_store in
  @bad_int decimal_parser cfg "mysql_params.port"
  /\ exists e, @config_raises decimal_parser cfg "mysql_params" e.
Proof.
  cbv zeta.
  assert (Hport : @bad_int decimal_parser
                    (<["mysql_params.port" := "abc"]> minimal_store) "mysql_params.port").
  { exists "abc". split; vm_compute; reflexivity. }
  split; [exact Hport|].
  apply (proj1 (@connect_config_error_cases decimal_parser
                  (<["mysql_params.port" := "abc"]> minimal_store) "mysql_params")).
  do 3 right. left. exact Hport.
Defined.



(** C9, as first stated, fails: the section has its own connect timeout, 5,
    and the two stores differ in the global key only, 30 in one and a text that
    is no integer in the other; the first run hands 5 over and the second
    raises on the global text and hands nothing over. *)
Lemma global_text_not_integer_interferes :
  (forall key, key ≠ "mysql_connect_timeout" ->
               example_store !! key = bad_global_store !! key)
  /\ example_store !! "mysql_params.connect_timeout" = Some "5"
  /\ @connect_config_calls decimal_parser example_store "mysql_params"
     = (inr tt, [ConnectCall "Test" "127.0.0.1" "root" "qwerty" 3306 "" 5 600])
  /\ @connect_config_calls decimal_parser bad_global_store "mysql_params"
     = (inl (SyntaxException "abc"), []).
Proof.
  split; [|repeat split; vm_compute; reflexivity].
  intros key Hkey. unfold bad_global_store. by rewrite lookup_insert_ne.
Qed.

(** C9, witness: the global connect timeout, 30, is taken out of the store of
    the usage note and the section keeps its 5. *)
Lemma own_timeout_shields_global_witness :
  @connect_config_calls decimal_parser example_store "mysql_params"
  = @connect_config_calls decimal_parser
      (delete "mysql_connect_timeout" example_store) "mysql_params".
Proof.
  unfold connect_config_calls.
  apply (proj1 (@own_timeout_shields_global decimal_parser)
           example_store (delete "mysql_connect_timeout" example_store) "mysql_params").
  - intros key Hkey. by rewrite lookup_delete_ne.
  - exists "5". vm_compute. reflexivity.
  - vm_compute. reflexivity.
  - vm_compute. reflexivity.
Defined.

(** * Further facts about [connect(config_name)] *)

Section FurtherFacts.
Context `{NumberParser}.



(** X3.  A missing host is reported as such, by the key that is missing,
    whatever else the store holds. *)
Theorem missing_host_reported cfg name :
  absent cfg (name ++ ".host") ->
  config_raises cfg name (NotFoundException (name ++ ".host")).
Proof.
  intros Habsent W connect w.
  assert (Hhost : getString cfg (name ++ ".host") = inl (NotFoundException (name ++ ".host"))).
  { by apply getString_inl. }
  run_reads. reflexivity.
Qed.

End FurtherFacts.



(** X3, witness: the empty store. *)
Lemma missing_host_reported_witness :
  @connect_config_calls decimal_parser ∅ "mysql_params"
  = (inl (NotFoundException "mysql_params.host"), []).
Proof.
  apply (@missing_host_reported decimal_parser ∅ "mysql_params").
  vm_compute. reflexivity.
Defined.

(** * The members modelled from their declarations *)

Section LifecycleFacts.
Context `{NumberParser}.
Variable reachable : ConnectArgs -> bool.
Variable alive : N -> bool.

Abbreviation perform' := (perform reachable alive).
Abbreviation run' := (run reachable alive).

Lemma Connection_connect_driver db server user password port socket timeout rw_timeout c :
  driver (Connection_connect reachable db server user password port socket timeout rw_timeout c).2
  = driver c.
Proof. unfold Connection_connect. by destruct (reachable _). Qed.

(** No call reseats the driver object. *)
Lemma perform_driver this op c : driver (perform' this op c).2 = driver c.
Proof.
  destruct op as [a|cfg name| | | |str|]; try reflexivity.
  - cbn. unfold Connection_connect. by destruct (reachable _).
  - cbn. destruct (connect_config_dichotomy cfg name) as [(e & _ & He)|(a & _ & Ha)].
    + unfold mbind, M_bind, bind. by rewrite He.
    + unfold mbind, M_bind, bind. rewrite Ha.
      unfold Connection_connect. by destruct (reachable _).
Qed.

Lemma run_driver this ops c : driver (run' this ops c).2 = driver c.
Proof.
  revert c. induction ops as [|op ops IH]; intros c; [reflexivity|].
  cbn. destruct (perform' this op c) as [outcome c'] eqn:Hop.
  destruct (run' this ops c') as [outcomes c''] eqn:Hrun. cbn.
  pose proof (IH c') as IH'. rewrite Hrun in IH'. cbn in IH'. rewrite IH'.
  pose proof (perform_driver this op c) as Hd. by rewrite Hop in Hd.
Qed.

End LifecycleFacts.

Section LifecycleClaims.
Context `{NumberParser}.
Variable reachable : ConnectArgs -> bool.
Variable alive : N -> bool.

Lemma run_cons_state this op ops c :
  (run reachable alive this (op :: ops) c).2
  = (run reachable alive this ops (perform reachable alive this op c).2).2.
Proof.
  cbn [run]. destruct (perform reachable alive this op c) as [outcome c']. cbn [snd].
  by destruct (run reachable alive this ops c') as [outcomes c''].
Qed.

(** [connect(config_name)] on a store that gets it to the call is the
    eight-argument [connect] on the arguments of that call. *)
Lemma perform_config_call this cfg name a c :
  connect_config_calls cfg name = (inr tt, [a]) ->
  perform reachable alive this (CallConnectConfig cfg name) c
  = perform reachable alive this (CallConnect a) c.
Proof.
  intros Hcall. cbn.
  destruct (connect_config_dichotomy cfg name) as [(e & _ & He)|(a' & Hcall' & Ha')].
  - unfold connect_config_calls in Hcall. rewrite He in Hcall. discriminate.
  - rewrite Hcall in Hcall'. injection Hcall' as <-.
    unfold mbind, M_bind, bind. by rewrite Ha'.
Qed.

Lemma perform_config_raise this cfg name c :
  well_configured cfg name = false ->
  exists e, is_configuration_error e = true
            /\ perform reachable alive this (CallConnectConfig cfg name) c = (inl e, c).
Proof.
  intros Hwc. destruct (ill_configured_raises _ _ Hwc) as (e & Hconf & He).
  exists e. split; [assumption|]. cbn. unfold mbind, M_bind, bind. by rewrite He.
Qed.

Lemma connects_settles op : connects reachable op -> settles op.
Proof. destruct op; cbn; try done. intros (a & Hcall & _). eauto. Qed.

Lemma settles_or_not op : settles op \/ ~ settles op.
Proof.
  destruct op as [a|cfg name| | | |str|]; cbn; auto.
  destruct (connect_config_dichotomy cfg name) as [(e & _ & He)|(a & Hcall & _)]; [|eauto].
  right. intros [a Hcall]. unfold connect_config_calls in Hcall.
  rewrite He in Hcall. discriminate.
Qed.

(** After a call that settles the matter the connection is connected exactly
    when the call established it, whatever it was before. *)
Lemma perform_settles this op c :
  settles op ->
  is_connected (perform reachable alive this op c).2 = true <-> connects reachable op.
Proof.
  destruct op as [a|cfg name| | | |str|]; cbn [settles connects]; try (by intros []).
  - intros _. cbn. unfold Connection_connect. destruct a; cbn.
    by destruct (reachable _).
  - intros [a Hcall]. rewrite (perform_config_call _ _ _ _ _ Hcall).
    cbn. unfold Connection_connect. destruct a; cbn. split.
    + destruct (reachable _) eqn:Hr; cbn; [|discriminate]. intros _. eauto.
    + intros (a' & Hcall' & Hr). rewrite Hcall in Hcall'. injection Hcall' as <-.
      by rewrite Hr.
Qed.

(** Any other call leaves the connection as it is. *)
Lemma perform_idle this op c :
  ~ settles op -> (perform reachable alive this op c).2 = c.
Proof.
  destruct op as [a|cfg name| | | |str|]; cbn [settles]; intros Hidle;
    try reflexivity; try (by destruct Hidle).
  destruct (well_configured cfg name) eqn:Hwc.
  - destruct (well_configured_call _ _ Hwc)
      as (? & ? & ? & ? & ? & ? & _ & _ & _ & _ & _ & _ & Hcall).
    destruct Hidle. eauto.
  - destruct (perform_config_raise this cfg name c Hwc) as (e & _ & He). by rewrite He.
Qed.

(** A run ends connected exactly when the last call that settled the matter
    established the connection, or when no call did and it began connected. *)
Lemma run_connected_since this ops c :
  is_connected (run reachable alive this ops c).2 = true <->
  (is_connected c = true /\ Forall (fun op => ~ settles op) ops)
  \/ (exists before op after,
        ops = (before ++ op :: after)%list
        /\ connects reachable op
        /\ Forall (fun op' => ~ settles op') after).
Proof.
  revert c. induction ops as [|op ops IH]; intros c.
  - cbn. split; [auto|]. intros [[? _]|(before & op & after & Hops & _)]; [done|].
    by destruct before.
  - rewrite run_cons_state, IH. split.
    + intros [[Hc Hrest]|(before & op' & after & -> & Hop' & Hafter)].
      * destruct (settles_or_not op) as [Hop|Hop].
        -- right. exists [], op, ops. repeat split; [|done].
           by apply (perform_settles this op c Hop).
        -- left. rewrite (perform_idle this op c Hop) in Hc. by split; [|constructor].
      * right. by exists (op :: before), op', after.
    + intros [[Hc Hall]|(before & op' & after & Hops & Hop' & Hafter)].
      * left. apply Forall_cons in Hall as [Hop Hrest].
        by rewrite (perform_idle this op c Hop).
      * destruct before as [|op0 before]; cbn in Hops; injection Hops as -> ->.
        -- left. split; [|done].
           by apply (perform_settles this _ c (connects_settles _ Hop')).
        -- right. by exists before, op', after.
Qed.


(** *** Several connections *)

Lemma act_preserves w a :
  uniquely_owned w /\ drivers_allocated w ->
  uniquely_owned (act reachable alive w a) /\ drivers_allocated (act reachable alive w a).
Proof.
  intros [Huniq Halloc]. destruct a as [this|this|this op]; cbn.
  - destruct (objects w !! this) as [c|] eqn:Hthis; [done|].
    assert (Hfresh : fresh (allocated w) ∉ allocated w) by apply is_fresh.
    split.
    + intros t1 t2 c1 c2. cbn.
      destruct (decide (t1 = this)) as [->|Hne1], (decide (t2 = this)) as [->|Hne2];
        [done| | |].
      * rewrite lookup_insert_eq, lookup_insert_ne by done.
        intros [= <-] H2 Hd. cbn in Hd. apply Halloc in H2. by rewrite <- Hd in H2.
      * rewrite lookup_insert_eq, lookup_insert_ne by done.
        intros H1 [= <-] Hd. cbn in Hd. apply Halloc in H1. by rewrite Hd in H1.
      * rewrite !lookup_insert_ne by done. apply Huniq.
    + intros t c'. cbn. destruct (decide (t = this)) as [->|Hne].
      * rewrite lookup_insert_eq. intros [= <-]. cbn. set_solver.
      * rewrite lookup_insert_ne by done. intros Ht%Halloc. set_solver.
  - destruct (objects w !! this) as [c|] eqn:Hthis; [|done].
    split.
    + intros t1 t2 c1 c2. cbn.
      intros [_ H1]%lookup_delete_Some [_ H2]%lookup_delete_Some. by apply Huniq.
    + intros t c'. cbn. intros [Hne Ht]%lookup_delete_Some.
      apply elem_of_difference. split; [by eapply Halloc|].
      intros Hd%elem_of_singleton. destruct Hne. symmetry. by eapply Huniq.
  - destruct (objects w !! this) as [c|] eqn:Hthis; [|done].
    pose proof (perform_driver reachable alive this op c) as Hd.
    split.
    + intros t1 t2 c1 c2. cbn.
      destruct (decide (t1 = this)) as [->|Hne1], (decide (t2 = this)) as [->|Hne2];
        [done| | |].
      * rewrite lookup_insert_eq, lookup_insert_ne by done.
        intros [= <-] H2 Heq. rewrite Hd in Heq. symmetry. by eapply Huniq.
      * rewrite lookup_insert_eq, lookup_insert_ne by done.
        intros H1 [= <-] Heq. rewrite Hd in Heq. by eapply Huniq.
      * rewrite !lookup_insert_ne by done. apply Huniq.
    + intros t c'. cbn. destruct (decide (t = this)) as [->|Hne].
      * rewrite lookup_insert_eq. intros [= <-]. rewrite Hd. by eapply Halloc.
      * rewrite lookup_insert_ne by done. apply Halloc.
Qed.

Lemma foldl_act_preserves actions w :
  uniquely_owned w /\ drivers_allocated w ->
  uniquely_owned (foldl (act reachable alive) w actions)
  /\ drivers_allocated (foldl (act reachable alive) w actions).
Proof.
  revert w. induction actions as [|a actions IH]; intros w Hw; [done|].
  cbn. apply IH. by apply act_preserves.
Qed.

(** C10.  In the model of the declared members: whatever a program does with
    connections -- constructing them, calling their members, destroying them;
    the class being non-copyable, there is nothing else -- no two live
    [Connection] objects hold the same driver object, and every driver object
    held is allocated. *)
Theorem driver_uniquely_owned actions :
  uniquely_owned (execute reachable alive actions)
  /\ drivers_allocated (execute reachable alive actions).
Proof.
  apply foldl_act_preserves. split.
  - intros t1 t2 c1 c2 H1. cbn in H1. by rewrite lookup_empty in H1.
  - intros t c Ht. cbn in Ht. by rewrite lookup_empty in Ht.
Qed.

End LifecycleClaims.

(** * More about [connect(config_name)] *)

(** ** Keys apart *)

Ltac open_reads :=
  unfold connect_config, getString, getString_default, getInt_default.

Ltac close_reads :=
  cbv beta iota delta [mbind M_bind bind read as_unsigned].

Section MoreConnectFacts.
Context `{NumberParser}.

Lemma int_ok_first_bad_int cfg key keys :
  int_ok cfg key = true -> first_bad_int cfg (key :: keys) = first_bad_int cfg keys.
Proof.
  unfold int_ok. cbn [first_bad_int].
  destruct (cfg !! key) as [text|]; [|done]. by destruct (parseInt text).
Qed.

Lemma bad_int_first_bad_int cfg key keys text :
  cfg !! key = Some text -> parseInt text = None ->
  first_bad_int cfg (key :: keys) = Some text.
Proof. intros Hk Hp. cbn [first_bad_int]. by rewrite Hk, Hp. Qed.

(** X4.  [connect(config_name)] looks at ten keys and at nothing else in the
    store: two stores that agree on them give the same run, whatever the
    eight-argument [connect] is. *)
Theorem reads_only_its_keys cfg1 cfg2 name :
  (forall key, key ∈ keys_read name -> cfg1 !! key = cfg2 !! key) ->
  forall (W : Type) (connect : @Connect8 W) (w : W),
    connect_config connect cfg1 name w = connect_config connect cfg2 name w.
Proof.
  intros Hsame W connect w. open_reads.
  rewrite !Hsame by (unfold keys_read; set_solver).
  reflexivity.
Qed.

(** X5.  A missing setting is reported before anything else is looked at: with
    the host there and the user missing the call raises [NotFoundException]
    on the user key, with host and user there and the password missing it
    raises it on the password key -- also when an integer setting has a text
    that is no integer. *)
Theorem missing_user_or_password_reported cfg name :
  (has_key cfg (name ++ ".host") = true ->
   absent cfg (name ++ ".user") ->
   config_raises cfg name (NotFoundException (name ++ ".user")))
  /\ (has_key cfg (name ++ ".host") = true ->
      has_key cfg (name ++ ".user") = true ->
      absent cfg (name ++ ".password") ->
      config_raises cfg name (NotFoundException (name ++ ".password"))).
Proof.
  split.
  - intros [server Hs]%has_key_true Hu W connect w.
    apply getString_inr in Hs.
    assert (Huser : getString cfg (name ++ ".user") = inl (NotFoundException (name ++ ".user")))
      by (by apply getString_inl).
    run_reads. reflexivity.
  - intros [server Hs]%has_key_true [user Hu]%has_key_true Hp W connect w.
    apply getString_inr in Hs, Hu.
    assert (Hpass : getString cfg (name ++ ".password")
                    = inl (NotFoundException (name ++ ".password")))
      by (by apply getString_inl).
    run_reads. reflexivity.
Qed.

(** X6.  With host, user and password there, the integer settings are read in
    the order port, mysql_connect_timeout, config_name.connect_timeout,
    mysql_rw_timeout, config_name.rw_timeout, and the first of them whose text
    is no integer stops the call: it raises [SyntaxException] with that
    text. *)
Theorem first_malformed_integer_reported cfg name text :
  has_key cfg (name ++ ".host") = true ->
  has_key cfg (name ++ ".user") = true ->
  has_key cfg (name ++ ".password") = true ->
  first_bad_int cfg (int_keys name) = Some text ->
  config_raises cfg name (SyntaxException text).
Proof.
  intros [server Hs]%has_key_true [user Hu]%has_key_true [password Hp]%has_key_true
    Hfirst W connect w.
  apply getString_inr in Hs, Hu, Hp. unfold int_keys in Hfirst.
  assert (Hstop : forall key deflt keys,
            int_ok cfg key = false ->
            first_bad_int cfg (key :: keys) = Some text ->
            getInt_default cfg key deflt = inl (SyntaxException text)).
  { intros key deflt keys (t & Hk & Ht)%int_ok_false Hf.
    rewrite (bad_int_first_bad_int _ _ _ _ Hk Ht) in Hf. injection Hf as <-.
    apply getInt_default_inl. eauto. }
  destruct (int_ok cfg (name ++ ".port")) eqn:Hport.
  2:{ pose proof (Hstop _ 0 _ Hport Hfirst). run_reads. reflexivity. }
  rewrite int_ok_first_bad_int in Hfirst by done.
  apply (int_ok_true _ _ 0) in Hport as [port Hport%getInt_default_inr].
  destruct (int_ok cfg "mysql_connect_timeout") eqn:Hgt.
  2:{ pose proof (Hstop _ MYSQLXX_DEFAULT_TIMEOUT _ Hgt Hfirst). run_reads. reflexivity. }
  rewrite int_ok_first_bad_int in Hfirst by done.
  apply (int_ok_true _ _ MYSQLXX_DEFAULT_TIMEOUT) in Hgt as [gt Hgt%getInt_default_inr].
  destruct (int_ok cfg (name ++ ".connect_timeout")) eqn:Ht.
  2:{ pose proof (Hstop _ gt _ Ht Hfirst). run_reads. reflexivity. }
  rewrite int_ok_first_bad_int in Hfirst by done.
  apply (int_ok_true _ _ gt) in Ht as [timeout Ht%getInt_default_inr].
  destruct (int_ok cfg "mysql_rw_timeout") eqn:Hgrw.
  2:{ pose proof (Hstop _ MYSQLXX_DEFAULT_RW_TIMEOUT _ Hgrw Hfirst). run_reads. reflexivity. }
  rewrite int_ok_first_bad_int in Hfirst by done.
  apply (int_ok_true _ _ MYSQLXX_DEFAULT_RW_TIMEOUT) in Hgrw as [grw Hgrw%getInt_default_inr].
  destruct (int_ok cfg (name ++ ".rw_timeout")) eqn:Hrw.
  2:{ pose proof (Hstop _ grw _ Hrw Hfirst). run_reads. reflexivity. }
  rewrite int_ok_first_bad_int in Hfirst by done. discriminate.
Qed.


(** X7.  The global keys are one default for every section: two sections
    without a connect timeout of their own are handed the same connect
    timeout, and likewise for the read/write timeout. *)
Theorem sections_share_global_timeouts cfg name1 name2 args1 args2 :
  connect_config_calls cfg name1 = (inr tt, [args1]) ->
  connect_config_calls cfg name2 = (inr tt, [args2]) ->
  (cfg !! (name1 ++ ".connect_timeout") = None ->
   cfg !! (name2 ++ ".connect_timeout") = None ->
   arg_timeout args1 = arg_timeout args2)
  /\ (cfg !! (name1 ++ ".rw_timeout") = None ->
      cfg !! (name2 ++ ".rw_timeout") = None ->
      arg_rw_timeout args1 = arg_rw_timeout args2).
Proof.
  intros Hcall1 Hcall2.
  destruct (well_configured_call cfg name1 (call_well_configured _ _ _ Hcall1))
    as (? & ? & ? & ? & t1 & rw1 & _ & _ & _ & _ & Ht1 & Hrw1 & Ha1).
  destruct (well_configured_call cfg name2 (call_well_configured _ _ _ Hcall2))
    as (? & ? & ? & ? & t2 & rw2 & _ & _ & _ & _ & Ht2 & Hrw2 & Ha2).
  rewrite Hcall1 in Ha1. rewrite Hcall2 in Ha2. simplify_eq.
  cbn [arg_timeout arg_rw_timeout].
  apply timeout_setting_cases in Ht1, Ht2, Hrw1, Hrw2.
  split; intros Hown1 Hown2.
  - rewrite Hown1 in Ht1. rewrite Hown2 in Ht2.
    destruct (cfg !! "mysql_connect_timeout"); congruence.
  - rewrite Hown1 in Hrw1. rewrite Hown2 in Hrw2.
    destruct (cfg !! "mysql_rw_timeout"); congruence.
Qed.

Lemma int_setting_insert_ne cfg key key' text deflt :
  key ≠ key' -> int_setting (<[key := text]> cfg) key' deflt = int_setting cfg key' deflt.
Proof. intros Hne. unfold int_setting. by rewrite lookup_insert_ne. Qed.

(** X8.  Writing a timeout of its own into a section that connects changes
    that timeout as it is handed over, to the value written, and no other
    argument: for config_name.connect_timeout the connect timeout, for
    config_name.rw_timeout the read/write timeout. *)
Theorem own_timeout_overrides cfg name args text v :
  connect_config_calls cfg name = (inr tt, [args]) ->
  parseInt text = Some v ->
  connect_config_calls (<[name ++ ".connect_timeout" := text]> cfg) name
  = (inr tt, [ConnectCall (arg_db args) (arg_server args) (arg_user args)
                (arg_password args) (arg_port args) (arg_socket args)
                (to_unsigned v) (arg_rw_timeout args)])
  /\ connect_config_calls (<[name ++ ".rw_timeout" := text]> cfg) name
     = (inr tt, [ConnectCall (arg_db args) (arg_server args) (arg_user args)
                   (arg_password args) (arg_port args) (arg_socket args)
                   (arg_timeout args) (to_unsigned v)]).
Proof.
  intros Hcall Hv.
  destruct (well_configured_settings _ _ (call_well_configured _ _ _ Hcall))
    as (server & user & password & port & gt & timeout & grw & rw_timeout
        & Hs & Hu & Hp & Hport & Hgt & Ht & Hgrw & Hrw).
  unfold connect_config_calls in Hcall.
  rewrite (connect_config_success _ _ _ _ _ _ _ _ _ _ Hs Hu Hp Hport Hgt Ht Hgrw Hrw)
    in Hcall.
  injection Hcall as <-. cbn. split.
  - set (cfg' := <[name ++ ".connect_timeout" := text]> cfg).
    assert (Hdb : cfg' !! (name ++ ".db") = cfg !! (name ++ ".db"))
      by (apply lookup_insert_ne; keys_apart).
    assert (Hsock : cfg' !! (name ++ ".socket") = cfg !! (name ++ ".socket"))
      by (apply lookup_insert_ne; keys_apart).
    rewrite <- Hdb, <- Hsock. unfold connect_config_calls.
    apply (connect_config_success cfg' name server user password port gt v grw rw_timeout);
      subst cfg'; rewrite ?int_setting_insert_ne, ?lookup_insert_ne by keys_apart; try done.
    unfold int_setting. by rewrite lookup_insert_eq.
  - set (cfg' := <[name ++ ".rw_timeout" := text]> cfg).
    assert (Hdb : cfg' !! (name ++ ".db") = cfg !! (name ++ ".db"))
      by (apply lookup_insert_ne; keys_apart).
    assert (Hsock : cfg' !! (name ++ ".socket") = cfg !! (name ++ ".socket"))
      by (apply lookup_insert_ne; keys_apart).
    rewrite <- Hdb, <- Hsock. unfold connect_config_calls.
    apply (connect_config_success cfg' name server user password port gt timeout grw v);
      subst cfg'; rewrite ?int_setting_insert_ne, ?lookup_insert_ne by keys_apart; try done.
    unfold int_setting. by rewrite lookup_insert_eq.
Qed.

(** X9.  For a section with a timeout of its own, the value of the global
    key does not matter at all, as long as it is an integer: writing another
    integer there leaves the whole run as it was, the call and the errors.
    This holds for mysql_connect_timeout when the section has its
    connect_timeout, and for mysql_rw_timeout when it has its rw_timeout. *)
Theorem global_timeout_unused_when_overridden cfg name text v :
  parseInt text = Some v ->
  (is_Some (cfg !! (name ++ ".connect_timeout")) ->
   int_ok cfg "mysql_connect_timeout" = true ->
   forall (W : Type) (connect : @Connect8 W) (w : W),
     connect_config connect (<["mysql_connect_timeout" := text]> cfg) name w
     = connect_config connect cfg name w)
  /\ (is_Some (cfg !! (name ++ ".rw_timeout")) ->
      int_ok cfg "mysql_rw_timeout" = true ->
      forall (W : Type) (connect : @Connect8 W) (w : W),
        connect_config connect (<["mysql_rw_timeout" := text]> cfg) name w
        = connect_config connect cfg name w).
Proof.
  intros Hv. split.
  - intros [own Hown] Hglobal W connect w.
    open_reads.
    rewrite lookup_insert_eq, !lookup_insert_ne by keys_apart.
    rewrite Hown, Hv.
    unfold int_ok in Hglobal.
    destruct (cfg !! "mysql_connect_timeout") as [gtext|]; [|reflexivity].
    destruct (parseInt gtext) as [g|]; [reflexivity|discriminate].
  - intros [own Hown] Hglobal W connect w.
    open_reads.
    rewrite lookup_insert_eq, !lookup_insert_ne by keys_apart.
    rewrite Hown, Hv.
    unfold int_ok in Hglobal.
    destruct (cfg !! "mysql_rw_timeout") as [gtext|]; [|reflexivity].
    destruct (parseInt gtext) as [g|]; [reflexivity|discriminate].
Qed.

Lemma has_key_delete_ne cfg key key' :
  key ≠ key' -> has_key (delete key cfg) key' = has_key cfg key'.
Proof. intros Hne. unfold has_key. by rewrite lookup_delete_ne. Qed.

Lemma int_ok_delete cfg key key' :
  int_ok cfg key' = true -> int_ok (delete key cfg) key' = true.
Proof.
  unfold int_ok. destruct (decide (key = key')) as [->|Hne].
  - by rewrite lookup_delete_eq.
  - by rewrite lookup_delete_ne.
Qed.

(** X10.  No setting that has a default is needed: taking any one of them out
    of a store on which [connect(config_name)] reaches the call leaves a store
    on which it reaches the call. *)
Theorem optional_setting_removable cfg name key args :
  key ∈ optional_keys name ->
  connect_config_calls cfg name = (inr tt, [args]) ->
  exists args', connect_config_calls (delete key cfg) name = (inr tt, [args']).
Proof.
  intros Hkey Hcall. apply call_well_configured in Hcall.
  assert (Hwc : well_configured (delete key cfg) name = true).
  { unfold well_configured in *. rewrite !andb_true_iff in *.
    destruct Hcall as [[[[[[[Hs Hu] Hp] Hport] Hgt] Ht] Hgrw] Hrw].
    assert (Hreq : forall suffix, In suffix [".host"; ".user"; ".password"] ->
                                  key ≠ name ++ suffix).
    { intros suffix Hsuffix. unfold optional_keys in Hkey.
      repeat (apply elem_of_cons in Hkey as [->|Hkey]);
        [| | | | | | |by apply elem_of_nil in Hkey];
        repeat (destruct Hsuffix as [<-|Hsuffix]); try done; keys_apart. }
    rewrite !has_key_delete_ne by (apply Hreq; cbn; tauto).
    repeat split; auto using int_ok_delete. }
  destruct (well_configured_call _ _ Hwc) as (? & ? & ? & ? & ? & ? & _ & _ & _ & _ & _ & _ & Hcall').
  eauto.
Qed.

(** X11.  On a store with none of the four timeout keys,
    [connect(config_name)] is the call of the eight-argument [connect] that
    leaves the two timeouts to their declared defaults. *)
Theorem no_timeout_keys_is_default_arguments cfg name :
  well_configured cfg name = true ->
  cfg !! "mysql_connect_timeout" = None ->
  cfg !! (name ++ ".connect_timeout") = None ->
  cfg !! "mysql_rw_timeout" = None ->
  cfg !! (name ++ ".rw_timeout") = None ->
  exists server user password port,
    cfg !! (name ++ ".host") = Some server /\
    cfg !! (name ++ ".user") = Some user /\
    cfg !! (name ++ ".password") = Some password /\
    int_setting cfg (name ++ ".port") 0 = Some port /\
    forall (W : Type) (connect : @Connect8 W) (w : W),
      connect_config connect cfg name w
      = connect_default_timeouts connect
          (c_str (default "" (cfg !! (name ++ ".db"))))
          (c_str server) (c_str user) (c_str password) (to_unsigned port)
          (c_str (default "" (cfg !! (name ++ ".socket")))) w.
Proof.
  intros Hwc Hgt Ht Hgrw Hrw.
  destruct (well_configured_settings _ _ Hwc)
    as (server & user & password & port & gt & timeout & grw & rw_timeout
        & Hs & Hu & Hp & Hport & Hgt' & Ht' & Hgrw' & Hrw').
  exists server, user, password, port. repeat (split; [assumption|]).
  intros W connect w.
  rewrite (connect_config_success _ _ _ _ _ _ _ _ _ _ Hs Hu Hp Hport Hgt' Ht' Hgrw' Hrw').
  unfold int_setting in Hgt', Ht', Hgrw', Hrw'.
  rewrite Hgt in Hgt'. rewrite Ht in Ht'. rewrite Hgrw in Hgrw'. rewrite Hrw in Hrw'.
  simplify_eq. reflexivity.
Qed.

End MoreConnectFacts.

(** ** Concrete stores, again *)

(** X4, witness: the settings of another section do not matter. *)
Lemma reads_only_its_keys_witness :
  @connect_config_calls decimal_parser
    (<["other_params.host" := "10.0.0.1"]> example_store) "mysql_params"
  = @connect_config_calls decimal_parser example_store "mysql_params"
  /\ @connect_config_calls decimal_parser example_store "mysql_params"
     = (inr tt, [ConnectCall "Test" "127.0.0.1" "root" "qwerty" 3306 "" 5 600]).
Proof.
  split; [|vm_compute; reflexivity].
  apply (@reads_only_its_keys decimal_parser
           (<["other_params.host" := "10.0.0.1"]> example_store) example_store
           "mysql_params").
  intros key Hkey. unfold keys_read in Hkey.
  repeat (apply elem_of_cons in Hkey as [->|Hkey]); try (vm_compute; reflexivity).
  by apply elem_of_nil in Hkey.
Defined.

(** X5, witness: the user is missing and the port is no integer; the user is
    what is reported. *)
Lemma missing_user_or_password_reported_witness :
  missing_user_store !! "mysql_params.port" = Some "abc"
  /\ @connect_config_calls decimal_parser missing_user_store "mysql_params"
     = (inl (NotFoundException "mysql_params.user"), []).
Proof.
  split; [vm_compute; reflexivity|].
  apply (proj1 (@missing_user_or_password_reported decimal_parser
                  missing_user_store "mysql_params"));
    vm_compute; reflexivity.
Defined.

(** X6, witness: both connect timeouts are no integers; the global one is
    read first and is the one reported. *)
Lemma first_malformed_integer_reported_witness :
  @first_bad_int decimal_parser bad_timeouts_store (int_keys "mysql_params")
  = Some "later"
  /\ @connect_config_calls decimal_parser bad_timeouts_store "mysql_params"
     = (inl (SyntaxException "later"), []).
Proof.
  split; [vm_compute; reflexivity|].
  apply (@first_malformed_integer_reported decimal_parser
           bad_timeouts_store "mysql_params" "later");
    vm_compute; reflexivity.
Defined.

(** X7, witness: two sections and a global connect timeout of 30. *)
Lemma sections_share_global_timeouts_witness :
  exists args1 args2,
    @connect_config_calls decimal_parser two_sections_store "first" = (inr tt, [args1])
    /\ @connect_config_calls decimal_parser two_sections_store "second" = (inr tt, [args2])
    /\ arg_server args1 ≠ arg_server args2
    /\ arg_timeout args1 = 30
    /\ arg_timeout args1 = arg_timeout args2.
Proof.
  exists (ConnectCall "" "10.0.0.1" "reader" "one" 0 "" 30 1800),
         (ConnectCall "" "10.0.0.2" "writer" "two" 0 "" 30 1800).
  split; [vm_compute; reflexivity|]. split; [vm_compute; reflexivity|].
  split; [discriminate|]. split; [reflexivity|].
  apply (proj1 (@sections_share_global_timeouts decimal_parser
                  two_sections_store "first" "second"
                  (ConnectCall "" "10.0.0.1" "reader" "one" 0 "" 30 1800)
                  (ConnectCall "" "10.0.0.2" "writer" "two" 0 "" 30 1800)
                  ltac:(vm_compute; reflexivity) ltac:(vm_compute; reflexivity)));
    vm_compute; reflexivity.
Defined.

(** X8, witness: a connect timeout of 7 for the section. *)
Lemma own_timeout_overrides_witness :
  @connect_config_calls decimal_parser minimal_store "mysql_params"
  = (inr tt, [ConnectCall "" "127.0.0.1" "root" "qwerty" 0 "" 60 1800])
  /\ @connect_config_calls decimal_parser
       (<["mysql_params.connect_timeout" := "7"]> minimal_store) "mysql_params"
     = (inr tt, [ConnectCall "" "127.0.0.1" "root" "qwerty" 0 "" (to_unsigned 7) 1800]).
Proof.
  split; [vm_compute; reflexivity|].
  apply (proj1 (@own_timeout_overrides decimal_parser minimal_store "mysql_params"
                  (ConnectCall "" "127.0.0.1" "root" "qwerty" 0 "" 60 1800) "7" 7
                  ltac:(vm_compute; reflexivity) ltac:(vm_compute; reflexivity))).
Defined.

(** X9, witness: the section has 5, the global key goes from 30 to 99. *)
Lemma global_timeout_unused_when_overridden_witness :
  @connect_config_calls decimal_parser
    (<["mysql_connect_timeout" := "99"]> example_store) "mysql_params"
  = @connect_config_calls decimal_parser example_store "mysql_params".
Proof.
  apply (proj1 (@global_timeout_unused_when_overridden decimal_parser example_store
                  "mysql_params" "99" 99 ltac:(vm_compute; reflexivity))).
  - exists "5". vm_compute. reflexivity.
  - vm_compute. reflexivity.
Defined.

(** X10, witness: the port is taken out of the store of the usage note. *)
Lemma optional_setting_removable_witness :
  exists args,
    @connect_config_calls decimal_parser
      (delete "mysql_params.port" example_store) "mysql_params"
    = (inr tt, [args]).
Proof.
  apply (@optional_setting_removable decimal_parser example_store "mysql_params"
           "mysql_params.port"
           (ConnectCall "Test" "127.0.0.1" "root" "qwerty" 3306 "" 5 600)).
  - unfold optional_keys. right. left.
  - vm_compute. reflexivity.
Defined.

(** X11, witness: the store with host, user and password only. *)
Lemma no_timeout_keys_is_default_arguments_witness :
  @well_configured decimal_parser minimal_store "mysql_params" = true
  /\ (forall (W : Type) (connect : @Connect8 W) (w : W),
        @connect_config decimal_parser W connect minimal_store "mysql_params" w
        = connect_default_timeouts connect "" "127.0.0.1" "root" "qwerty" 0 "" w).
Proof.
  split; [vm_compute; reflexivity|].
  destruct (@no_timeout_keys_is_default_arguments decimal_parser minimal_store "mysql_params")
    as (server & user & password & port & Hs & Hu & Hp & Hport & Hrun);
    [vm_compute; reflexivity .. |].
  vm_compute in Hs, Hu, Hp, Hport.
  injection Hs as <-. injection Hu as <-. injection Hp as <-. injection Hport as <-.
  exact Hrun.
Defined.
